(** * StreamsyncUI: the component builder facade of [streamsync/ui_manager.py]

    A shallow embedding of the class [StreamsyncUI] and of the parts of
    [streamsync.core_ui] it calls, followed by the properties of component
    creation, lookup and refresh. *)

From stdpp Require Import gmap strings list fin_maps.

Open Scope string_scope.
Open Scope Z_scope.

(** ** Python values

    Keyword arguments are a loosely typed bag ([**kwargs]); the values that
    reach the facade are [None], booleans, integers, strings, callables
    (event handlers) and dictionaries with string keys. A callable carries
    its [__name__] when it has one (a function does, a [functools.partial]
    object does not). *)

#[warnings="-register-all"]
Inductive pyval :=
  | PNone
  | PBool (b : bool)
  | PInt (z : Z)
  | PStr (s : string)
  | PCallable (name : option string)
  | PDict (d : gmap string pyval).

(** [callable(v)] *)
Definition callable (v : pyval) : bool :=
  match v with PCallable _ => true | _ => false end.

(** Truth value of a Python object, as used by [x or None] and [if x]. *)
Definition truthy (v : pyval) : bool :=
  match v with
  | PNone => false
  | PBool b => b
  | PInt z => negb (Z.eqb z 0)
  | PStr s => negb (String.eqb s "")
  | PCallable _ => true
  | PDict d => negb (Nat.eqb (size d) 0)
  end.

(** ** Exceptions *)

Inductive exn :=
  | UIError (msg : string)
  | RuntimeError (msg : string)
  | TypeError (msg : string)
  | AttributeError (msg : string)
  | ValidationError (msg : string).

(** The error the specification calls [NotInContainerError]:
    [UIError("A component can only be created inside a container")]. *)
Definition NotInContainerError : exn :=
  UIError "A component can only be created inside a container".

(** The error the specification calls [ComponentNotFoundError]:
    [RuntimeError(f"Component {component_id} not found")]. *)
Definition ComponentNotFoundError (component_id : string) : exn :=
  RuntimeError ("Component " ++ component_id ++ " not found").

(** ** Components *)

(** Modelled from the spec: the class [Component] of [streamsync.core_ui]
    is not part of the sources at hand. The record has the fields of the
    data model: id, type tag, parent reference (absent for the root),
    ordering key, attribute payload, handler map, binding and flag. The
    ordering key is an integer in the data model; the field holds whatever
    value is assigned to it, since the facade assigns what it is passed. *)
Record Component := mkComponent {
  id : string;
  type : string;
  parentId : option string;
  position : pyval;
  attributes : gmap string pyval;
  handlers : option (gmap string pyval);
  binding : option pyval;
  flag : string;
}.

(** [component.position = p] *)
Definition set_position (c : Component) (p : pyval) : Component :=
  {| id := id c; type := type c; parentId := parentId c; position := p;
     attributes := attributes c; handlers := handlers c;
     binding := binding c; flag := flag c |}.

(** The keyword parameters that [_create_component] passes to [Component]
    by name; a second value for one of them, coming from [**kwargs], is a
    [TypeError] of the call itself. *)
Definition explicit_keywords : list string :=
  ["type"; "parentId"; "flag"; "handlers"; "binding"].

Definition duplicate_keyword (kwargs : gmap string pyval) : option string :=
  head (filter (λ k, is_Some (kwargs !! k)) explicit_keywords).

(** Modelled from the spec: the constructor of [Component] (absent from the
    sources). [fresh] is the id the generator hands out when the caller
    supplies none; [id] and [parentId] must be strings; what is left of the
    keyword arguments is the opaque attribute payload; the position starts
    at zero and is assigned by the caller afterwards. *)
Definition Component_new (fresh : string) (type_ : string) (parentId_ : pyval)
    (flag_ : string) (handlers_ : option (gmap string pyval))
    (binding_ : option pyval) (kwargs : gmap string pyval) : exn + Component :=
  match duplicate_keyword kwargs with
  | Some k => inl (TypeError ("got multiple values for keyword argument " ++ k))
  | None =>
    match parentId_ with
    | PStr p =>
      let build i :=
        inr {| id := i; type := type_; parentId := Some p; position := PInt 0;
               attributes := delete "id" kwargs; handlers := handlers_;
               binding := binding_; flag := flag_ |} in
      match kwargs !! "id" with
      | None => build fresh
      | Some (PStr i) => build i
      | Some _ => inl (ValidationError "id")
      end
    | _ => inl (ValidationError "parentId")
    end
  end.

(** ** Component trees *)

(** Modelled from the spec: the classes [ComponentTree] and
    [SessionComponentTree] of [streamsync.core_ui] (absent from the
    sources). The base tree owns its storage. A session tree is an overlay
    with storage of its own over a base tree it never mutates: an id it
    holds shadows the base tree, and an id it has removed is kept as a
    [None] entry so that the removal is seen through the overlay. *)
Inductive ComponentTree :=
  | BaseTree (components : gmap string Component)
  | SessionTree (components : gmap string (option Component))
                (base : gmap string Component).

(** Modelled from the spec: [getComponent(id)], lookup with overlay
    fall-through (the session tree checks itself, then the base tree). *)
Definition get_component (t : ComponentTree) (component_id : string)
    : option Component :=
  match t with
  | BaseTree cs => cs !! component_id
  | SessionTree cs base =>
    match cs !! component_id with
    | Some c => c
    | None => base !! component_id
    end
  end.

(** The effective tree: what lookups through [t] see, as one map. *)
Definition effective (t : ComponentTree) : gmap string Component :=
  match t with
  | BaseTree cs => cs
  | SessionTree cs base =>
    merge (λ s b, match s with Some c => c | None => b end) cs base
  end.

(** Modelled from the spec: [attach(component)] inserts or replaces the
    component under its own id; the write lands in the session tree when
    there is one. *)
Definition attach (t : ComponentTree) (component : Component) : ComponentTree :=
  match t with
  | BaseTree cs => BaseTree (<[id component := component]> cs)
  | SessionTree cs base => SessionTree (<[id component := Some component]> cs) base
  end.

(** [d] has [a] among its ancestors: following [parentId] upwards from [d]
    through components of [m] reaches [a] in at most [fuel] steps. *)
Fixpoint has_ancestor (fuel : nat) (m : gmap string Component)
    (a d : string) : bool :=
  match fuel with
  | O => false
  | S fuel' =>
    match m !! d with
    | Some c =>
      match parentId c with
      | Some p => if decide (p = a) then true else has_ancestor fuel' m a p
      | None => false
      end
    | None => false
    end
  end.

(** The components [clear_children] removes: "the entire subtree minus the
    node itself". A chain of parents without repetition is no longer than
    the tree has components, which bounds the search. *)
Definition in_subtree (m : gmap string Component) (a d : string) : bool :=
  bool_decide (d ≠ a) && has_ancestor (size m) m a d.

(** The marks a session tree keeps for the components of [m] that are in
    the subtree of [parent_id]: each of them is removed, [None]. *)
Definition removal_marks (m : gmap string Component) (parent_id : string)
    : gmap string (option Component) :=
  (λ _, None) <$> filter (λ kc, in_subtree m parent_id kc.1 = true) m.

(** Modelled from the spec: [clearChildren(id)] removes every descendant of
    the named component. On a session tree the removed ids are recorded in
    the overlay and the base tree is left alone. *)
Definition clear_children (t : ComponentTree) (parent_id : string)
    : ComponentTree :=
  match t with
  | BaseTree cs =>
    BaseTree (filter (λ kc, in_subtree cs parent_id kc.1 = false) cs)
  | SessionTree cs base =>
    SessionTree (removal_marks (effective t) parent_id ∪ cs) base
  end.

(** Modelled from the spec: the direct children of [parent_id] in the
    effective tree. *)
Definition get_direct_descendents (t : ComponentTree) (parent_id : string)
    : list Component :=
  filter (λ c, parentId c = Some parent_id) (map_to_list (effective t)).*2.

(** The sentinel position of a positionless component. *)
Definition positionless_sentinel : Z := -2.

(** [max(ps)] with [d] for the empty list. *)
Definition max_or (d : Z) (ps : list Z) : Z :=
  match ps with
  | [] => d
  | p :: ps' => foldr Z.max p ps'
  end.

(** The integer a position is, when it is one. *)
Definition rank (c : Component) : option Z :=
  match position c with PInt z => Some z | _ => None end.

(** The positions that take part in the ordering of the children of
    [parent_id]: those of its positioned children (a position that is not
    an integer orders nothing). *)
Definition sibling_positions (t : ComponentTree) (parent_id : string) : list Z :=
  filter (λ p, p ≠ positionless_sentinel)
         (omap rank (get_direct_descendents t parent_id)).

(** Modelled from the spec: [determinePosition(id, parentId, isPositionless)].
    The sentinel for a positionless component; else the position the id
    already has; else one more than the largest position among the current
    siblings, or than -1 when there are none. *)
Definition determine_position (t : ComponentTree) (component_id : string)
    (parent_id : string) (is_positionless : bool) : pyval :=
  if is_positionless then PInt positionless_sentinel
  else match get_component t component_id with
       | Some c => position c
       | None => PInt (1 + max_or (-1) (sibling_positions t parent_id))
       end.

(** ** The state the facade works on *)

(** [component_tree] is the tree bound to the [StreamsyncUI] object (the
    session tree handed to [__init__], or the shared base tree);
    [current_parent_container] is the context variable of the same name. *)
Record world := mkWorld {
  component_tree : ComponentTree;
  current_parent_container : option Component;
}.

(** Computations that read and write the state and may raise: the state
    that comes back is the state at the point of the return or the raise. *)
Definition M (A : Type) : Type := world → (exn + A) * world.

Definition ret {A} (a : A) : M A := λ w, (inr a, w).
Definition raise {A} (e : exn) : M A := λ w, (inl e, w).
Definition bind {A B} (m : M A) (k : A → M B) : M B :=
  λ w, match m w with
       | (inr a, w') => k a w'
       | (inl e, w') => (inl e, w')
       end.
Definition lift {A} (r : exn + A) : M A :=
  match r with inl e => raise e | inr a => ret a end.
Definition get_tree : M ComponentTree := λ w, (inr (component_tree w), w).
Definition set_tree (t : ComponentTree) : M unit :=
  λ w, (inr tt, {| component_tree := t;
                   current_parent_container := current_parent_container w |}).
(** [current_parent_container.get(None)] *)
Definition get_container : M (option Component) :=
  λ w, (inr (current_parent_container w), w).

Declare Scope py_scope.
Delimit Scope py_scope with py.
Notation "'let!' x ':=' m 'in' k" := (bind m (λ x, k))
  (at level 10, x name, m at level 100, k at level 200) : py_scope.
Open Scope py_scope.

(** Modelled from the spec: entering a container's scope sets the context
    variable to that container and hands back the previous value; leaving
    restores it ([Component.__enter__] and [__exit__] are absent from the
    sources). *)
Definition enter_container (c : Component) : M (option Component) :=
  λ w, (inr (current_parent_container w),
        {| component_tree := component_tree w;
           current_parent_container := Some c |}).
Definition exit_container (previous : option Component) : M unit :=
  λ w, (inr tt, {| component_tree := component_tree w;
                   current_parent_container := previous |}).

(** ** The class [StreamsyncUI] *)

Definition assert_in_container : M unit :=
  let! container := get_container in
  match container with
  | None => raise NotInContainerError
  | Some _ => ret tt
  end.

Definition find (component_id : string) : M Component :=
  let! t := get_tree in
  match get_component t component_id with
  | None => raise (ComponentNotFoundError component_id)
  | Some component => ret component
  end.

(** A [Component] object is always true, so the test [if not component]
    after [find] never fires. *)
Definition refresh_with (component_id : string) : M Component :=
  let! component := find component_id in
  let! t := get_tree in
  let! _ := set_tree (clear_children t component_id) in
  ret component.

(** One turn of the loop of [_prepare_handlers]. *)
Definition prepare_handler (event : string) (handler : pyval)
    (acc : exn + gmap string pyval) : exn + gmap string pyval :=
  match acc with
  | inl e => inl e
  | inr handlers_ =>
    if callable handler then
      match handler with
      | PCallable (Some name) => inr (<[event := PStr name]> handlers_)
      | _ => inl (AttributeError "__name__")
      end
    else inr (<[event := handler]> handlers_)
  end.

Definition _prepare_handlers (raw_handlers : pyval) : exn + gmap string pyval :=
  match raw_handlers with
  | PNone => inr ∅
  | PDict d => map_fold prepare_handler (inr ∅) d
  | _ => inl (AttributeError "items")
  end.

Definition _prepare_binding (raw_binding : pyval) : pyval := raw_binding.

(** [if kwargs.get(k, False) is None: kwargs.pop(k)] *)
Definition pop_if_none (k : string) (kwargs : gmap string pyval)
    : gmap string pyval :=
  match kwargs !! k with
  | Some PNone => delete k kwargs
  | _ => kwargs
  end.

(** [kwargs.pop(k, d)]: the value; the caller goes on with [delete k kwargs]. *)
Definition pop_default (k : string) (d : pyval) (kwargs : gmap string pyval)
    : pyval :=
  default d (kwargs !! k).

(** The string a value is, for a value [Component] has accepted as one. *)
Definition str_of (v : pyval) : string :=
  match v with PStr s => s | _ => "" end.

(** [fresh] is the id the generator of [Component] hands out in this call,
    should it be asked for one. A [Component] object is always true, so
    [not parent_container] holds exactly when the context variable is
    unset. A position that is passed and is not [None] is assigned as it
    is, whatever kind of value it is. *)
Definition _create_component (fresh : string) (component_type : string)
    (kwargs : gmap string pyval) : M Component :=
  let! parent_container := get_container in
  let kwargs := pop_if_none "id" kwargs in
  let kwargs := pop_if_none "position" kwargs in
  let kwargs := pop_if_none "parentId" kwargs in
  let parent_id :=
    match kwargs !! "parentId" with
    | Some v => v
    | None => PStr (match parent_container with
                    | None => "root"
                    | Some c => id c
                    end)
    end in
  let kwargs := delete "parentId" kwargs in
  let position_ := pop_default "position" PNone kwargs in
  let kwargs := delete "position" kwargs in
  let is_positionless := pop_default "positionless" (PBool false) kwargs in
  let kwargs := delete "positionless" kwargs in
  let raw_handlers := pop_default "handlers" (PDict ∅) kwargs in
  let kwargs := delete "handlers" kwargs in
  let raw_binding := pop_default "binding" (PDict ∅) kwargs in
  let kwargs := delete "binding" kwargs in
  let! prepared := lift (_prepare_handlers raw_handlers) in
  let handlers_ := if Nat.eqb (size prepared) 0 then None else Some prepared in
  let binding_ :=
    if truthy (_prepare_binding raw_binding)
    then Some (_prepare_binding raw_binding) else None in
  let! component := lift (Component_new fresh component_type parent_id "cmc"
                                         handlers_ binding_ kwargs) in
  let! t := get_tree in
  let component :=
    set_position component
      match position_ with
      | PNone =>
        determine_position t (id component)
          (str_of parent_id) (truthy is_positionless)
      | _ => position_
      end in
  let! _ := set_tree (attach t component) in
  ret component.

Definition create_container_component (fresh : string) (component_type : string)
    (kwargs : gmap string pyval) : M Component :=
  let! container := _create_component fresh component_type kwargs in
  ret container.

Definition create_component (fresh : string) (component_type : string)
    (kwargs : gmap string pyval) : M Component :=
  let! _ := assert_in_container in
  let! component := _create_component fresh component_type kwargs in
  ret component.

(** ** Construction of the facade and its root *)

Module UI.

(** What a [StreamsyncUI] object keeps besides the tree it works on: the
    component found under ["root"] when the object was built. *)
Record t := mk { root_component : option Component }.

Section Init.

(** The truth value of a tree object, which [__init__] tests; the tree
    classes are not at hand, so it is left open. *)
Variable tree_is_true : ComponentTree → bool.

(** [component_tree or base_component_tree], then the lookup of the root:
    the object, and the tree it is bound to. *)
Definition __init__ (component_tree : option ComponentTree)
    (base_component_tree : ComponentTree) : t * ComponentTree :=
  let bound :=
    match component_tree with
    | Some tree => if tree_is_true tree then tree else base_component_tree
    | None => base_component_tree
    end in
  ({| root_component := get_component bound "root" |}, bound).

End Init.

(** The property [root]; a [Component] object is always true. *)
Definition root (self : t) : exn + Component :=
  match root_component self with
  | None => inl (RuntimeError "Failed to acquire root component")
  | Some component => inr component
  end.

(** [__enter__] hands the object back; [__exit__] does nothing and returns
    [None], so that an exception of the block goes on. *)
Definition __enter__ (self : t) : t := self.
Definition __exit__ (self : t) : pyval := PNone.

End UI.

(** ** Vocabulary of the statements *)

(** The value a call passes for [k]: nothing when the keyword is left out
    or is [None]. *)
Definition passed (k : string) (kwargs : gmap string pyval) : option pyval :=
  match kwargs !! k with
  | Some PNone => None
  | o => o
  end.

(** What is stored for a handler value: the declared name of a callable,
    any other value as it is. *)
Definition reduced (handler : pyval) : pyval :=
  match handler with
  | PCallable (Some name) => PStr name
  | v => v
  end.

(** A callable without a declared name. *)
Definition nameless (handler : pyval) : bool :=
  match handler with PCallable None => true | _ => false end.






(** The parent a call resolves to: the [parentId] passed, else the id of
    the container the context holds, else ["root"]. *)
Definition resolved_parent (w : world) (kwargs : gmap string pyval) : pyval :=
  default (PStr (match current_parent_container w with
                 | None => "root"
                 | Some c => id c
                 end))
          (passed "parentId" kwargs).

(** The state after [component] has been attached to the tree of [w]. *)
Definition attached (w : world) (component : Component) : world :=
  {| component_tree := attach (component_tree w) component;
     current_parent_container := current_parent_container w |}.

(** The two public creation operations. *)
Inductive creation := Container | Leaf.

Definition create (k : creation)
    : string → string → gmap string pyval → M Component :=
  match k with
  | Container => create_container_component
  | Leaf => create_component
  end.

Definition is_UIError (e : exn) : bool :=
  match e with UIError _ => true | _ => false end.



(** ** Example states *)

Definition root_component : Component :=
  {| id := "root"; type := "root"; parentId := None; position := PInt 0;
     attributes := ∅; handlers := None; binding := None; flag := "" |}.

Definition section_component : Component :=
  {| id := "main"; type := "section"; parentId := Some "root"; position := PInt 0;
     attributes := ∅; handlers := None; binding := None; flag := "cmc" |}.

Definition text_component : Component :=
  {| id := "hello"; type := "text"; parentId := Some "main"; position := PInt 0;
     attributes := ∅; handlers := None; binding := None; flag := "cmc" |}.

(** The base tree with its root only, outside every container. *)
Definition base_world : world :=
  mkWorld (BaseTree {[ "root" := root_component ]}) None.

(** A base tree with a section and a text in it, inside the section. *)
Definition section_world : world :=
  mkWorld (BaseTree (<[ "hello" := text_component ]>
                     (<[ "main" := section_component ]>
                      {[ "root" := root_component ]})))
          (Some section_component).

(** A session tree over that base tree that has not written anything. *)
Definition session_world : world :=
  mkWorld (SessionTree ∅ (<[ "hello" := text_component ]>
                          (<[ "main" := section_component ]>
                           {[ "root" := root_component ]})))
          None.

(** The text that [create_component("text")] adds in [section_world] when
    the generator hands out ["g1"]. *)
Definition created_leaf : Component :=
  {| id := "g1"; type := "text"; parentId := Some "main"; position := PInt 1;
     attributes := ∅; handlers := None; binding := None; flag := "cmc" |}.



(** A call with a binding descriptor, and one with an empty descriptor. *)
Definition bound_kwargs : gmap string pyval :=
  {[ "binding" := PDict {[ "variable" := PStr "counter" ]} ]}.

Definition created_bound : Component :=
  {| id := "g3"; type := "slider"; parentId := Some "main"; position := PInt 1;
     attributes := ∅; handlers := None;
     binding := Some (PDict {[ "variable" := PStr "counter" ]});
     flag := "cmc" |}.

Definition unbound_kwargs : gmap string pyval :=
  {[ "binding" := PDict ∅ ]}.

Definition created_unbound : Component :=
  {| id := "g3"; type := "slider"; parentId := Some "root"; position := PInt 0;
     attributes := ∅; handlers := None; binding := None; flag := "cmc" |}.




(** Handlers as a caller writes them, and as they are stored. *)
Definition click_handlers : gmap string pyval :=
  {[ "click" := PCallable (Some "on_click"); "hover" := PStr "on_hover" ]}.

Definition click_names : gmap string pyval :=
  {[ "click" := PStr "on_click"; "hover" := PStr "on_hover" ]}.

(** A call that is wrong twice: its handlers are a string, and it repeats
    the keyword [type]. *)
Definition refused_kwargs : gmap string pyval :=
  {[ "handlers" := PStr "on_click"; "type" := PStr "text" ]}.

(** A call that repeats the keyword [flag]. *)
Definition flagged_kwargs : gmap string pyval :=
  {[ "flag" := PStr "mine" ]}.

(** A second text for the section of [section_world], under the id of the
    first. *)
Definition replaced_kwargs : gmap string pyval :=
  {[ "id" := PStr "hello" ]}.

Definition created_replacement : Component :=
  {| id := "hello"; type := "button"; parentId := Some "main"; position := PInt 0;
     attributes := ∅; handlers := None; binding := None; flag := "cmc" |}.

(** A call that puts a page under the id of the root. *)
Definition root_kwargs : gmap string pyval :=
  {[ "id" := PStr "root" ]}.

Definition created_root : Component :=
  {| id := "root"; type := "page"; parentId := Some "root"; position := PInt 0;
     attributes := ∅; handlers := None; binding := None; flag := "cmc" |}.



(** * Properties *)

(** ** Keyword arguments *)

Lemma lookup_pop_if_none_eq k (m : gmap string pyval) :
  pop_if_none k m !! k = passed k m.
Proof.
  unfold pop_if_none, passed.
  destruct (m !! k) as [[]|] eqn:E; rewrite ?E; try done.
  apply lookup_delete_eq.
Qed.

Lemma lookup_pop_if_none_ne k k' (m : gmap string pyval) :
  k ≠ k' → pop_if_none k m !! k' = m !! k'.
Proof.
  intros Hne. unfold pop_if_none.
  destruct (m !! k) as [[]|]; try done. by apply lookup_delete_ne.
Qed.


Lemma pop_if_none_delete k (m : gmap string pyval) :
  pop_if_none k (delete k m) = delete k m.
Proof. unfold pop_if_none. by rewrite lookup_delete_eq. Qed.

Lemma pop_if_none_insert_ne k k' v (m : gmap string pyval) :
  k ≠ k' → pop_if_none k (<[k' := v]> m) = <[k' := v]> (pop_if_none k m).
Proof.
  intros Hne. unfold pop_if_none. rewrite lookup_insert_ne by done.
  destruct (m !! k) as [[]|]; try done. by apply delete_insert_ne.
Qed.

Lemma pop_if_none_delete_ne k k' (m : gmap string pyval) :
  pop_if_none k (delete k' m) = delete k' (pop_if_none k m).
Proof.
  destruct (decide (k = k')) as [->|Hne].
  - rewrite pop_if_none_delete. unfold pop_if_none.
    destruct (m !! k') as [[]|]; try done. by rewrite delete_delete_eq.
  - unfold pop_if_none. rewrite lookup_delete_ne by done.
    destruct (m !! k) as [[]|]; try done. apply delete_delete.
Qed.

Lemma passed_pop_if_none_ne k k' (m : gmap string pyval) :
  k ≠ k' → passed k' (pop_if_none k m) = passed k' m.
Proof. intros Hne. unfold passed. by rewrite lookup_pop_if_none_ne. Qed.

Lemma passed_None_unset k (m : gmap string pyval) :
  passed k m = None ↔ m !! k = None ∨ m !! k = Some PNone.
Proof.
  unfold passed. destruct (m !! k) as [[]|]; split; intros H; auto;
    try done; by destruct H.
Qed.

Lemma passed_not_None k (m : gmap string pyval) : passed k m ≠ Some PNone.
Proof. unfold passed. by destruct (m !! k) as [[]|]. Qed.

(** ** Handlers *)

Lemma callable_reduced v : nameless v = false → callable (reduced v) = false.
Proof. by destruct v as [| | | |[]|]. Qed.

Lemma prepare_handler_inr event handler hs :
  prepare_handler event handler (inr hs) =
    if nameless handler then inl (AttributeError "__name__")
    else inr (<[event := reduced handler]> hs).
Proof. by destruct handler as [| | | |[]|]. Qed.

(** The loop over [raw_handlers.items()] stores the reduced value of every
    entry, and raises exactly when some callable has no name. *)
Lemma prepare_handlers_fold (d : gmap string pyval) :
  match map_fold prepare_handler (inr ∅) d with
  | inr hs =>
      (∀ event, hs !! event = reduced <$> d !! event) ∧
      (∀ event v, d !! event = Some v → nameless v = false)
  | inl e =>
      e = AttributeError "__name__" ∧
      ∃ event v, d !! event = Some v ∧ nameless v = true
  end.
Proof.
  induction d as [|event v d Hnone Hfirst IH] using map_first_key_ind.
  - rewrite map_fold_empty. split; [intros; by rewrite !lookup_empty|].
    intros ??; by rewrite lookup_empty.
  - rewrite map_fold_insert_first_key by done.
    destruct (map_fold prepare_handler (inr ∅) d) as [e|hs].
    + destruct IH as [-> (event' & v' & Hv' & Hn)]. split; [done|].
      exists event', v'. split; [|done].
      rewrite lookup_insert_ne; [done|]. intros ->. congruence.
    + destruct IH as [Hlook Hnamed]. rewrite prepare_handler_inr.
      destruct (nameless v) eqn:Hv.
      * split; [done|]. exists event, v. by rewrite lookup_insert_eq.
      * split.
        -- intros event'. destruct (decide (event = event')) as [->|Hne].
           ++ by rewrite !lookup_insert_eq.
           ++ rewrite !lookup_insert_ne by done. apply Hlook.
        -- intros event' v'. destruct (decide (event = event')) as [->|Hne].
           ++ rewrite lookup_insert_eq. by intros [= <-].
           ++ rewrite lookup_insert_ne by done. apply Hnamed.
Qed.

Lemma prepare_handlers_dict_inr d hs :
  _prepare_handlers (PDict d) = inr hs →
  (∀ event, hs !! event = reduced <$> d !! event) ∧
  (∀ event v, d !! event = Some v → nameless v = false).
Proof.
  simpl. intros H. pose proof (prepare_handlers_fold d) as Hf.
  by rewrite H in Hf.
Qed.

Lemma prepare_handlers_inl raw e :
  _prepare_handlers raw = inl e → ∃ msg, e = AttributeError msg.
Proof.
  destruct raw as [| | | | |d]; simpl; try (intros [= <-]; by eexists); try done.
  intros H. pose proof (prepare_handlers_fold d) as Hf. rewrite H in Hf.
  destruct Hf as [-> _]. by eexists.
Qed.

(** No stored handler value is a callable. *)
Lemma prepare_handlers_no_callable raw hs event v :
  _prepare_handlers raw = inr hs → hs !! event = Some v → callable v = false.
Proof.
  destruct raw as [| | | | |d]; simpl; try done.
  - intros [= <-]. by rewrite lookup_empty.
  - intros H. destruct (prepare_handlers_dict_inr d hs H) as [Hlook Hnamed].
    rewrite Hlook. destruct (d !! event) as [v0|] eqn:E; [|done].
    intros [= <-]. apply callable_reduced. by eapply Hnamed.
Qed.


(** ** The constructor *)

Lemma duplicate_keyword_None (kwargs : gmap string pyval) :
  duplicate_keyword kwargs = None ↔
  ∀ k, k ∈ explicit_keywords → kwargs !! k = None.
Proof.
  unfold duplicate_keyword. generalize explicit_keywords as l.
  induction l as [|k l IH].
  - split; [|done]. intros _ k Hk. by apply elem_of_nil in Hk.
  - rewrite filter_cons. destruct (decide (is_Some (kwargs !! k))) as [Hs|Hn].
    + split; [done|]. intros H. destruct Hs as [v Hv].
      rewrite H in Hv; [done|]. apply list_elem_of_here.
    + rewrite IH. split.
      * intros H k' [Heq|Hin]%elem_of_cons; [|by apply H]. subst k'.
        destruct (kwargs !! k) eqn:E; [|done]. destruct Hn. by eexists.
      * intros H k' Hin. apply H. by apply list_elem_of_further.
Qed.

Lemma Component_new_inr fresh ty parent fl hs b kwargs c :
  Component_new fresh ty parent fl hs b kwargs = inr c →
  duplicate_keyword kwargs = None ∧
  parent = PStr (str_of parent) ∧ parentId c = Some (str_of parent) ∧
  (passed "id" kwargs = None ∧ kwargs !! "id" = None ∧ id c = fresh
   ∨ kwargs !! "id" = Some (PStr (id c))) ∧
  type c = ty ∧ flag c = fl ∧ handlers c = hs ∧ binding c = b ∧
  attributes c = delete "id" kwargs.
Proof.
  unfold Component_new, passed.
  destruct (duplicate_keyword kwargs); [done|].
  destruct parent as [| | |p| |]; try done.
  destruct (kwargs !! "id") as [[| | |i| |]|] eqn:E; try done;
    intros [= <-]; simpl; repeat split; auto.
Qed.

Lemma Component_new_inl fresh ty parent fl hs b kwargs e :
  Component_new fresh ty parent fl hs b kwargs = inl e → is_UIError e = false.
Proof.
  unfold Component_new. destruct (duplicate_keyword kwargs); [by intros [= <-]|].
  destruct parent; try by intros [= <-].
  destruct (kwargs !! "id") as [[]|]; try done; by intros [= <-].
Qed.

(** ** The shared creation routine *)

Ltac kw_lookup :=
  repeat first
    [ rewrite lookup_delete_eq
    | rewrite lookup_delete_ne by done
    | rewrite lookup_pop_if_none_eq
    | rewrite lookup_pop_if_none_ne by done ].

(** What a creation call returns and does to the state: a failure leaves
    the state as it was; a success attaches the component it returns, whose
    fields are read off the keyword arguments as follows. *)
Lemma _create_component_inv fresh ty kw w :
  match _create_component fresh ty kw w with
  | (inl e, w') => w' = w ∧ is_UIError e = false
  | (inr c, w') =>
      w' = attached w c ∧
      resolved_parent w kw = PStr (str_of (resolved_parent w kw)) ∧
      parentId c = Some (str_of (resolved_parent w kw)) ∧
      (passed "id" kw = None ∧ id c = fresh
       ∨ passed "id" kw = Some (PStr (id c))) ∧
      (passed "position" kw = Some (position c)
       ∨ passed "position" kw = None ∧
         position c =
           determine_position (component_tree w) (id c)
             (str_of (resolved_parent w kw))
             (truthy (pop_default "positionless" (PBool false) kw))) ∧
      (∃ prepared,
         _prepare_handlers (pop_default "handlers" (PDict ∅) kw) = inr prepared ∧
         handlers c = if Nat.eqb (size prepared) 0 then None else Some prepared) ∧
      binding c = (if truthy (pop_default "binding" (PDict ∅) kw)
                   then Some (pop_default "binding" (PDict ∅) kw) else None) ∧
      type c = ty ∧ flag c = "cmc"
  end.
Proof.
  unfold _create_component, bind, get_container, get_tree, set_tree, lift,
    ret, raise, pop_default, _prepare_binding. cbv zeta.
  kw_lookup. rewrite !passed_pop_if_none_ne by done.
  change (match passed "parentId" kw with
          | Some v => v
          | None => PStr match current_parent_container w with
                         | Some c => id c
                         | None => "root"
                         end
          end) with (resolved_parent w kw).
  set (K := delete "binding" _).
  assert (K !! "id" = passed "id" kw) as HK.
  { subst K. by kw_lookup. }
  destruct (_prepare_handlers (default (PDict ∅) (kw !! "handlers")))
    as [e|prepared] eqn:Hprep.
  { split; [done|]. by apply prepare_handlers_inl in Hprep as [msg ->]. }
  destruct (Component_new _ _ _ _ _ _ K) as [e|c] eqn:Hnew.
  { split; [done|]. by apply Component_new_inl in Hnew. }
  apply Component_new_inr in Hnew
    as (_ & Hparent & Hpid & Hid & Hty & Hfl & Hhs & Hb & _).
  assert (passed "id" kw = None ∧ id c = fresh
          ∨ passed "id" kw = Some (PStr (id c))) as Hid'.
  { rewrite <-HK. destruct Hid as [(_ & ? & ?)|?]; auto. }
  destruct (passed "position" kw) as [v|] eqn:Hpos; simpl.
  - assert (v ≠ PNone) as Hv by (intros ->; by apply passed_not_None in Hpos).
    split; [by destruct v|]. repeat split; auto.
    + left. by destruct v.
    + by eexists.
  - split; [done|]. repeat split; auto. by eexists.
Qed.


(** ** The public creation operations *)

Lemma create_container_component_eq fresh ty kw w :
  create_container_component fresh ty kw w = _create_component fresh ty kw w.
Proof.
  unfold create_container_component, bind, ret.
  by destruct (_create_component fresh ty kw w) as [[e|c] w'].
Qed.

Lemma create_component_outside fresh ty kw w :
  current_parent_container w = None →
  create_component fresh ty kw w = (inl NotInContainerError, w).
Proof.
  intros H. unfold create_component, assert_in_container, bind, get_container.
  by rewrite H.
Qed.

Lemma create_component_inside fresh ty kw w :
  is_Some (current_parent_container w) →
  create_component fresh ty kw w = _create_component fresh ty kw w.
Proof.
  intros [k H]. unfold create_component, assert_in_container, bind,
    get_container, ret. rewrite H.
  by destruct (_create_component fresh ty kw w) as [[e|c] w'].
Qed.

(** A public creation that returns has run the shared routine. *)
Lemma create_inr k fresh ty kw w c w' :
  create k fresh ty kw w = (inr c, w') →
  _create_component fresh ty kw w = (inr c, w').
Proof.
  destruct k; simpl.
  - by rewrite create_container_component_eq.
  - destruct (current_parent_container w) as [p|] eqn:E.
    + rewrite create_component_inside; [done|by eexists].
    + by rewrite create_component_outside.
Qed.

(** The facts of [_create_component_inv], for a call known to return. *)
Lemma create_inr_inv k fresh ty kw w c w' :
  create k fresh ty kw w = (inr c, w') →
  w' = attached w c ∧
  resolved_parent w kw = PStr (str_of (resolved_parent w kw)) ∧
  parentId c = Some (str_of (resolved_parent w kw)) ∧
  (passed "id" kw = None ∧ id c = fresh
   ∨ passed "id" kw = Some (PStr (id c))) ∧
  (passed "position" kw = Some (position c)
   ∨ passed "position" kw = None ∧
     position c =
       determine_position (component_tree w) (id c)
         (str_of (resolved_parent w kw))
         (truthy (pop_default "positionless" (PBool false) kw))) ∧
  (∃ prepared,
     _prepare_handlers (pop_default "handlers" (PDict ∅) kw) = inr prepared ∧
     handlers c = if Nat.eqb (size prepared) 0 then None else Some prepared) ∧
  binding c = (if truthy (pop_default "binding" (PDict ∅) kw)
               then Some (pop_default "binding" (PDict ∅) kw) else None) ∧
  type c = ty ∧ flag c = "cmc".
Proof.
  intros H%create_inr. pose proof (_create_component_inv fresh ty kw w) as Hinv.
  by rewrite H in Hinv.
Qed.

(** Scoping of the context: a leaf created inside container [B], itself
    entered inside container [A], is a child of [B]; once the scope of [B]
    is left, the next leaf is a child of [A]. *)
Lemma nested_scopes A B fresh1 fresh2 ty kw w outer inA inner inB c1 w1 outB
    c2 w2 :
  passed "parentId" kw = None →
  enter_container A w = (inr outer, inA) →
  enter_container B inA = (inr inner, inB) →
  create Leaf fresh1 ty kw inB = (inr c1, w1) →
  exit_container inner w1 = (inr tt, outB) →
  create Leaf fresh2 ty kw outB = (inr c2, w2) →
  parentId c1 = Some (id B) ∧ parentId c2 = Some (id A).
Proof.
  intros Hp [= <- <-] [= <- <-] H1 [= <-] H2.
  apply create_inr_inv in H1 as (-> & _ & -> & _).
  apply create_inr_inv in H2 as (_ & _ & -> & _).
  unfold resolved_parent. by rewrite Hp.
Qed.


(** ** Lookups in a tree *)

Lemma get_component_effective t component_id :
  get_component t component_id = effective t !! component_id.
Proof.
  destruct t as [cs|cs base]; simpl; [done|].
  rewrite lookup_merge. unfold diag_None.
  destruct (cs !! component_id) as [c|], (base !! component_id); done.
Qed.

Lemma get_component_attach t c component_id :
  get_component (attach t c) component_id =
    if decide (id c = component_id) then Some c
    else get_component t component_id.
Proof.
  destruct t as [cs|cs base]; simpl; rewrite lookup_insert; by case_decide.
Qed.

Lemma effective_attach t c :
  effective (attach t c) = <[id c := c]> (effective t).
Proof.
  apply map_eq. intros k. rewrite <-!get_component_effective.
  rewrite get_component_attach, lookup_insert.
  case_decide; [done|]. apply get_component_effective.
Qed.

(** ** Keywords passed as [None] *)



(** ** Ancestors and descendants *)











(** ** Clearing the children of a component *)









(** The session tree takes the writes: attaching and clearing leave the
    base tree under an overlay as it was. *)
Lemma session_writes_keep_base cs base c a :
  (∃ cs', attach (SessionTree cs base) c = SessionTree cs' base) ∧
  (∃ cs', clear_children (SessionTree cs base) a = SessionTree cs' base).
Proof. split; by eexists. Qed.

(** ** Positions among siblings *)









(** * Main results *)









(** C5. [find] returns the component the effective tree holds under the
    id, and fails with [ComponentNotFoundError], leaving the state alone,
    exactly when the effective tree holds none. *)
Theorem find_effective component_id w :
  find component_id w =
    match effective (component_tree w) !! component_id with
    | Some c => (inr c, w)
    | None => (inl (ComponentNotFoundError component_id), w)
    end ∧
  (effective (component_tree w) !! component_id = None ↔
   ∃ e w', find component_id w = (inl e, w')).
Proof.
  unfold find, bind, get_tree, ret, raise.
  rewrite get_component_effective.
  destruct (effective (component_tree w) !! component_id) as [c|]; split;
    try done.
  - split; [done|]. by intros (e & w' & ?).
  - split; [|done]. intros _. by eexists _, _.
Qed.



(** C7. A creation call either returns the component it has attached to
    the tree, or fails with the state, and so the tree, as it was; a failed
    precondition and a failed construction are among the latter. *)
Theorem creation_is_atomic k fresh ty kw w :
  match create k fresh ty kw w with
  | (inr c, w') =>
      w' = attached w c ∧ get_component (component_tree w') (id c) = Some c
  | (inl e, w') => w' = w
  end.
Proof.
  destruct (create k fresh ty kw w) as [[e|c] w'] eqn:E.
  - destruct k; simpl in E.
    + rewrite create_container_component_eq in E.
      pose proof (_create_component_inv fresh ty kw w) as Hinv.
      rewrite E in Hinv. by destruct Hinv.
    + destruct (current_parent_container w) as [p|] eqn:Hc.
      * rewrite create_component_inside in E by by eexists.
        pose proof (_create_component_inv fresh ty kw w) as Hinv.
        rewrite E in Hinv. by destruct Hinv.
      * rewrite create_component_outside in E by done. by inversion E.
  - apply create_inr_inv in E as (-> & _). split; [done|]. simpl.
    rewrite get_component_attach. by case_decide.
Qed.



(** C9, as the code has it. A binding descriptor that is true (a non-empty
    dictionary, say) is stored as it was passed; one that is false (the
    empty dictionary, [None]) is dropped, and so the binding of the
    component is absent, as it is when none was passed. *)
Theorem binding_stored k fresh ty kw w c w' :
  create k fresh ty kw w = (inr c, w') →
  (∀ b, kw !! "binding" = Some b → truthy b = true → binding c = Some b) ∧
  (∀ b, kw !! "binding" = Some b → truthy b = false → binding c = None) ∧
  (kw !! "binding" = None → binding c = None).
Proof.
  intros (_ & _ & _ & _ & _ & _ & Hb & _)%create_inr_inv.
  unfold pop_default in Hb. split; [|split].
  - intros b H Ht. rewrite H in Hb. simpl in Hb. by rewrite Ht in Hb.
  - intros b H Ht. rewrite H in Hb. simpl in Hb. by rewrite Ht in Hb.
  - intros H. by rewrite H in Hb.
Qed.

Lemma binding_stored_witness :
  binding created_bound = Some (PDict {[ "variable" := PStr "counter" ]}).
Proof.
  assert (create Leaf "g3" "slider" bound_kwargs section_world
          = (inr created_bound, attached section_world created_bound)) as H
    by (vm_compute; reflexivity).
  destruct (binding_stored _ _ _ _ _ _ _ H) as (Hb & _).
  apply Hb; reflexivity.
Defined.

(** C9, as it is stated, fails: an empty dictionary passed as the binding
    is not what the component stores. *)
Lemma binding_not_always_stored :
  ¬ (∀ k fresh ty kw w c w' b,
       create k fresh ty kw w = (inr c, w') →
       kw !! "binding" = Some b → binding c = Some b).
Proof.
  intros H.
  specialize (H Container "g3" "slider" unbound_kwargs base_world
                created_unbound (attached base_world created_unbound)
                (PDict ∅)).
  discriminate H; vm_compute; reflexivity.
Qed.



(** * Further properties of the facade *)

(** ** Preparing handlers *)

Lemma nameless_spec v : nameless v = true ↔ v = PCallable None.
Proof. destruct v as [| | | |[]|]; split; done. Qed.

(** X1. [_prepare_handlers] raises exactly when its argument is neither
    [None] nor a dictionary, or is a dictionary that holds a callable
    without a [__name__]; what it raises is an [AttributeError]. *)
Theorem prepare_handlers_fails_iff raw :
  ((∃ e, _prepare_handlers raw = inl e) ↔
   match raw with
   | PNone => False
   | PDict d => ∃ event, d !! event = Some (PCallable None)
   | _ => True
   end) ∧
  (∀ e, _prepare_handlers raw = inl e → ∃ msg, e = AttributeError msg).
Proof.
  split; [|apply prepare_handlers_inl].
  destruct raw as [| | | | |d]; simpl;
    try (split; [done|]; intros _; by eexists).
  - split; [by intros [e ?]|done].
  - pose proof (prepare_handlers_fold d) as Hf.
    destruct (map_fold prepare_handler (inr ∅) d) as [e|hs].
    + destruct Hf as [_ (event & v & Hv & Hn)]. split; [|by eexists].
      intros _. exists event. by apply nameless_spec in Hn as ->.
    + destruct Hf as [_ Hnamed]. split; [by intros [e ?]|].
      intros [event Hev]. by specialize (Hnamed _ _ Hev).
Qed.

Lemma prepare_handlers_keeps_events_size d hs :
  _prepare_handlers (PDict d) = inr hs → size hs = size d.
Proof.
  intros [Hlook _]%prepare_handlers_dict_inr.
  rewrite <-!size_dom. f_equal. apply set_eq. intros event.
  rewrite !elem_of_dom, Hlook. apply fmap_is_Some.
Qed.

(** X2. The handlers [_prepare_handlers] returns have exactly the events
    of the dictionary it was given, so as many. *)
Theorem prepare_handlers_keeps_events d hs :
  _prepare_handlers (PDict d) = inr hs →
  dom hs = dom d ∧ size hs = size d.
Proof.
  intros [Hlook _]%prepare_handlers_dict_inr.
  assert (dom hs = dom d) as Hdom.
  { apply set_eq. intros event. rewrite !elem_of_dom, Hlook.
    apply fmap_is_Some. }
  split; [done|]. by rewrite <-!size_dom, Hdom.
Qed.

Lemma prepare_handlers_keeps_events_witness :
  dom click_names = dom click_handlers ∧ size click_names = size click_handlers.
Proof.
  apply prepare_handlers_keeps_events. vm_compute. reflexivity.
Defined.

(** X3. Preparing handlers that have been prepared returns them as they
    are: the names that took the place of the callables stay. *)
Theorem prepare_handlers_idempotent raw hs :
  _prepare_handlers raw = inr hs → _prepare_handlers (PDict hs) = inr hs.
Proof.
  intros Hraw. simpl. pose proof (prepare_handlers_fold hs) as Hf.
  destruct (map_fold prepare_handler (inr ∅) hs) as [e|hs'].
  - destruct Hf as [_ (event & v & Hv & Hn)].
    apply nameless_spec in Hn as ->.
    by apply (prepare_handlers_no_callable _ _ _ _ Hraw) in Hv.
  - destruct Hf as [Hlook _]. f_equal. apply map_eq. intros event.
    rewrite Hlook. destruct (hs !! event) as [v|] eqn:Hv; [|done]. simpl.
    apply (prepare_handlers_no_callable _ _ _ _ Hraw) in Hv. by destruct v.
Qed.

Lemma prepare_handlers_idempotent_witness :
  _prepare_handlers (PDict click_names) = inr click_names.
Proof.
  apply (prepare_handlers_idempotent (PDict click_handlers)).
  vm_compute. reflexivity.
Defined.

(** ** Failures of a creation call *)

Lemma _create_component_handlers_inl fresh ty kw w e :
  _prepare_handlers (pop_default "handlers" (PDict ∅) kw) = inl e →
  _create_component fresh ty kw w = (inl e, w).
Proof.
  intros H. unfold _create_component, bind, get_container, lift, raise.
  cbv zeta. unfold pop_default in *. kw_lookup. by rewrite H.
Qed.

(** X4. The handlers are prepared before the component is built: when
    their preparation raises, the creation call raises the same, whatever
    its other arguments are, and the state is as it was. *)
Theorem handlers_failure_comes_first fresh ty kw w e :
  _prepare_handlers (pop_default "handlers" (PDict ∅) kw) = inl e →
  create_container_component fresh ty kw w = (inl e, w) ∧
  (is_Some (current_parent_container w) →
   create_component fresh ty kw w = (inl e, w)).
Proof.
  intros H. split.
  - rewrite create_container_component_eq.
    by apply _create_component_handlers_inl.
  - intros Hin. rewrite create_component_inside by done.
    by apply _create_component_handlers_inl.
Qed.

Lemma handlers_failure_comes_first_witness :
  create_container_component "g1" "text" refused_kwargs base_world
    = (inl (AttributeError "items"), base_world).
Proof.
  by destruct (handlers_failure_comes_first "g1" "text" refused_kwargs
                 base_world (AttributeError "items") eq_refl) as [H _].
Defined.

(** X5. A created component has no handlers exactly when the call passed
    none: the keyword left out, [None], or the empty dictionary. *)
Theorem no_handlers_iff_none_passed k fresh ty kw w c w' :
  create k fresh ty kw w = (inr c, w') →
  (handlers c = None ↔
   kw !! "handlers" = None ∨ kw !! "handlers" = Some PNone
   ∨ kw !! "handlers" = Some (PDict ∅)).
Proof.
  intros (_ & _ & _ & _ & _ & (prepared & Hprep & Hhs) & _)%create_inr_inv.
  unfold pop_default in Hprep. rewrite Hhs.
  destruct (kw !! "handlers") as [[| | | | |d]|] eqn:Hkw; simpl in Hprep;
    try done.
  - injection Hprep as <-. rewrite map_size_empty. simpl. split; auto.
  - assert (size prepared = size d) as ->
      by by apply prepare_handlers_keeps_events_size.
    destruct (Nat.eqb_spec (size d) 0) as [Hz|Hnz].
    + apply map_size_empty_inv in Hz as ->. split; auto.
    + split; [done|]. by intros [?|[?|[= ->]]].
  - rewrite map_fold_empty in Hprep. injection Hprep as <-.
    rewrite map_size_empty. simpl. split; auto.
Qed.

Lemma no_handlers_iff_none_passed_witness : handlers created_leaf = None.
Proof.
  assert (create Leaf "g1" "text" ∅ section_world
          = (inr created_leaf, attached section_world created_leaf)) as H
    by (vm_compute; reflexivity).
  apply (no_handlers_iff_none_passed _ _ _ _ _ _ _ H). by left.
Defined.

Lemma _create_component_reserved fresh ty kw w :
  is_Some (kw !! "type") ∨ is_Some (kw !! "flag") →
  ∃ e, _create_component fresh ty kw w = (inl e, w) ∧
       ∀ hs, _prepare_handlers (pop_default "handlers" (PDict ∅) kw) = inr hs →
             ∃ msg, e = TypeError msg.
Proof.
  intros Hres.
  unfold _create_component, bind, get_container, get_tree, set_tree, lift,
    ret, raise, pop_default, _prepare_binding. cbv zeta. kw_lookup.
  destruct (_prepare_handlers (default (PDict ∅) (kw !! "handlers")))
    as [e|prepared]; [by exists e|].
  set (K := delete "binding" _).
  assert (K !! "type" = kw !! "type") as Hty by (subst K; by kw_lookup).
  assert (K !! "flag" = kw !! "flag") as Hfl by (subst K; by kw_lookup).
  unfold Component_new.
  destruct (duplicate_keyword K) as [dup|] eqn:Hdup.
  - eexists. split; [done|]. intros _ _. by eexists.
  - exfalso. rewrite duplicate_keyword_None in Hdup.
    assert (K !! "type" = None) as Hty'
      by (apply Hdup; unfold explicit_keywords; rewrite !elem_of_cons; auto).
    assert (K !! "flag" = None) as Hfl'
      by (apply Hdup; unfold explicit_keywords; rewrite !elem_of_cons; auto).
    rewrite Hty in Hty'. rewrite Hfl in Hfl'.
    destruct Hres as [[? H]|[? H]]; congruence.
Qed.

(** X6. A call that passes [type] or [flag] among its keyword arguments
    never creates a component: the facade passes both to [Component] by
    name, so the call gives them twice. It fails with the state as it
    was, with a [TypeError] when the handlers were prepared. *)
Theorem reserved_keyword_is_refused fresh ty kw w :
  is_Some (kw !! "type") ∨ is_Some (kw !! "flag") →
  (∀ k, ∃ e, create k fresh ty kw w = (inl e, w)) ∧
  (∀ hs, _prepare_handlers (pop_default "handlers" (PDict ∅) kw) = inr hs →
         ∃ msg, create_container_component fresh ty kw w
                  = (inl (TypeError msg), w)).
Proof.
  intros Hres.
  destruct (_create_component_reserved fresh ty kw w Hres) as (e & He & Hty).
  split.
  - intros [|]; simpl.
    + exists e. by rewrite create_container_component_eq.
    + destruct (current_parent_container w) as [p|] eqn:Hc.
      * exists e. rewrite create_component_inside; [done|by eexists].
      * eexists. by apply create_component_outside.
  - intros hs Hhs. destruct (Hty hs Hhs) as [msg ->]. exists msg.
    by rewrite create_container_component_eq.
Qed.

Lemma reserved_keyword_is_refused_witness :
  ∃ msg, create_container_component "g1" "text" flagged_kwargs base_world
           = (inl (TypeError msg), base_world).
Proof.
  destruct (reserved_keyword_is_refused "g1" "text" flagged_kwargs base_world)
    as [_ H]; [right; by eexists|].
  by apply (H ∅).
Defined.

(** ** The two public operations *)

(** X7. Inside a container [create_component] is
    [create_container_component]: same result, same state. *)
Theorem leaf_creation_inside_a_container fresh ty kw w :
  is_Some (current_parent_container w) →
  create_component fresh ty kw w = create_container_component fresh ty kw w.
Proof.
  intros Hin.
  by rewrite create_component_inside, create_container_component_eq.
Qed.

Lemma leaf_creation_inside_a_container_witness :
  create_component "g1" "text" ∅ section_world
    = create_container_component "g1" "text" ∅ section_world.
Proof.
  apply leaf_creation_inside_a_container. by eexists.
Defined.

(** X8. A creation call that returns has changed one thing: the tree holds
    the returned component under its id. The context variable is the one
    it was, and so is what the tree holds under every other id. *)
Theorem creation_changes_one_id k fresh ty kw w c w' :
  create k fresh ty kw w = (inr c, w') →
  current_parent_container w' = current_parent_container w ∧
  effective (component_tree w') = <[id c := c]> (effective (component_tree w)) ∧
  ∀ d, d ≠ id c →
       get_component (component_tree w') d = get_component (component_tree w) d.
Proof.
  intros (-> & _)%create_inr_inv. split; [done|]. simpl.
  split; [apply effective_attach|].
  intros d Hne. rewrite get_component_attach. by case_decide.
Qed.

Lemma creation_changes_one_id_witness :
  get_component (component_tree (attached section_world created_leaf)) "hello"
    = Some text_component.
Proof.
  assert (create Leaf "g1" "text" ∅ section_world
          = (inr created_leaf, attached section_world created_leaf)) as H
    by (vm_compute; reflexivity).
  destruct (creation_changes_one_id _ _ _ _ _ _ _ H) as (_ & _ & Hother).
  by rewrite Hother.
Defined.

(** X9. Every component the facade creates has the type it was asked for
    and the flag ["cmc"]. *)
Theorem created_type_and_flag k fresh ty kw w c w' :
  create k fresh ty kw w = (inr c, w') → type c = ty ∧ flag c = "cmc".
Proof. by intros (_ & _ & _ & _ & _ & _ & _ & ? & ?)%create_inr_inv. Qed.

Lemma created_type_and_flag_witness :
  type created_leaf = "text" ∧ flag created_leaf = "cmc".
Proof.
  assert (create Leaf "g1" "text" ∅ section_world
          = (inr created_leaf, attached section_world created_leaf)) as H
    by (vm_compute; reflexivity).
  exact (created_type_and_flag _ _ _ _ _ _ _ H).
Defined.

(** ** Lookup after creation *)

Lemma find_get_component component_id w c :
  get_component (component_tree w) component_id = Some c →
  find component_id w = (inr c, w).
Proof. intros H. unfold find, bind, get_tree, ret. by rewrite H. Qed.

(** X10. What has been created is found: [find] returns a created
    component under its id, also after a later creation under another id;
    a later creation under the same id takes its place. *)
Theorem created_is_found k1 fresh1 ty1 kw1 k2 fresh2 ty2 kw2 w c1 w1 c2 w2 :
  create k1 fresh1 ty1 kw1 w = (inr c1, w1) →
  create k2 fresh2 ty2 kw2 w1 = (inr c2, w2) →
  find (id c1) w1 = (inr c1, w1) ∧
  find (id c2) w2 = (inr c2, w2) ∧
  (id c2 ≠ id c1 → find (id c1) w2 = (inr c1, w2)).
Proof.
  intros (-> & _)%create_inr_inv (-> & _)%create_inr_inv.
  split; [|split; [|intros Hne]]; apply find_get_component; simpl;
    rewrite ?get_component_attach; repeat case_decide; done.
Qed.

Lemma created_is_found_witness :
  find "hello" (attached (attached section_world created_leaf)
                         created_replacement)
    = (inr created_replacement,
       attached (attached section_world created_leaf) created_replacement).
Proof.
  assert (create Leaf "g1" "text" ∅ section_world
          = (inr created_leaf, attached section_world created_leaf)) as H1
    by (vm_compute; reflexivity).
  assert (create Leaf "g2" "button" replaced_kwargs
            (attached section_world created_leaf)
          = (inr created_replacement,
             attached (attached section_world created_leaf)
                      created_replacement)) as H2
    by (vm_compute; reflexivity).
  by destruct (created_is_found _ _ _ _ _ _ _ _ _ _ _ _ _ H1 H2) as (_ & Hf & _).
Defined.

(** ** Refreshing *)

(** X11. [refresh_with] returns what [find] returns, a component or the
    failure; [find] leaves the state alone, and [refresh_with] leaves the
    context variable alone. *)
Theorem refresh_with_returns_what_find_returns component_id w :
  (refresh_with component_id w).1 = (find component_id w).1 ∧
  (find component_id w).2 = w ∧
  current_parent_container (refresh_with component_id w).2
    = current_parent_container w.
Proof.
  unfold refresh_with, find, bind, get_tree, set_tree, ret, raise.
  by destruct (get_component (component_tree w) component_id).
Qed.

(** ** Flags that are false *)

Lemma strip_insert_other k v (kw : gmap string pyval) :
  k ∉ ["id"; "position"; "parentId"] →
  pop_if_none "parentId" (pop_if_none "position"
    (pop_if_none "id" (<[k := v]> kw))) =
  <[k := v]> (pop_if_none "parentId" (pop_if_none "position"
                (pop_if_none "id" kw))).
Proof.
  rewrite !not_elem_of_cons. intros (? & ? & ? & _).
  by rewrite !pop_if_none_insert_ne.
Qed.

Lemma strip_delete_other k (kw : gmap string pyval) :
  pop_if_none "parentId" (pop_if_none "position"
    (pop_if_none "id" (delete k kw))) =
  delete k (pop_if_none "parentId" (pop_if_none "position"
              (pop_if_none "id" kw))).
Proof. by rewrite !pop_if_none_delete_ne. Qed.

(** The keyword arguments [Component] gets do not depend on a keyword the
    routine pops. *)
Lemma rest_without_popped k v (m : gmap string pyval) :
  k ∈ ["positionless"; "handlers"; "binding"] →
  delete "binding" (delete "handlers" (delete "positionless"
    (delete "position" (delete "parentId" (<[k := v]> m))))) =
  delete "binding" (delete "handlers" (delete "positionless"
    (delete "position" (delete "parentId" (delete k m))))).
Proof.
  intros Hk. apply map_eq. intros j.
  rewrite !lookup_delete, lookup_insert.
  rewrite !elem_of_cons, elem_of_nil in Hk.
  destruct Hk as [->|[->|[->|[]]]]; repeat case_decide; simplify_eq; done.
Qed.

Ltac popped_keyword k :=
  unfold _create_component, bind, get_container, get_tree, set_tree, lift,
    ret, raise, pop_default, _prepare_binding; cbv zeta;
  rewrite strip_insert_other
    by (rewrite !not_elem_of_cons; repeat split; try done; apply not_elem_of_nil);
  rewrite strip_delete_other;
  rewrite (rest_without_popped k) by (rewrite !elem_of_cons; auto);
  repeat first
    [ rewrite lookup_delete_eq
    | rewrite lookup_delete_ne by done
    | rewrite lookup_insert_eq
    | rewrite lookup_insert_ne by done ].

Lemma _create_component_false_keyword fresh ty kw w :
  (∀ v, truthy v = false →
     _create_component fresh ty (<["positionless" := v]> kw) w
       = _create_component fresh ty (delete "positionless" kw) w) ∧
  (∀ v, truthy v = false →
     _create_component fresh ty (<["binding" := v]> kw) w
       = _create_component fresh ty (delete "binding" kw) w) ∧
  (∀ v, v = PNone ∨ v = PDict ∅ →
     _create_component fresh ty (<["handlers" := v]> kw) w
       = _create_component fresh ty (delete "handlers" kw) w).
Proof.
  split; [|split].
  - intros v Hv. popped_keyword "positionless". simpl. by rewrite Hv.
  - intros v Hv. popped_keyword "binding". simpl. by rewrite Hv.
  - intros v Hv. popped_keyword "handlers".
    assert (_prepare_handlers (default (PDict ∅) (Some v))
            = _prepare_handlers (default (PDict ∅) None)) as ->; [|done].
    destruct Hv as [->| ->]; simpl; by rewrite map_fold_empty.
Qed.

(** The public operations add nothing that looks at the keywords. *)
Lemma create_ext k fresh ty kw1 kw2 w :
  _create_component fresh ty kw1 w = _create_component fresh ty kw2 w →
  create k fresh ty kw1 w = create k fresh ty kw2 w.
Proof.
  intros H. destruct k; simpl.
  - by rewrite !create_container_component_eq.
  - destruct (current_parent_container w) as [p|] eqn:Hc.
    + by rewrite !create_component_inside by by eexists.
    + by rewrite !create_component_outside.
Qed.

(** X12. A [positionless] or a [binding] that is false ([None], [False],
    the empty dictionary) and [handlers] that are [None] or empty are as
    good as not passed: the call returns the same and leaves the same
    state as the call without the keyword. *)
Theorem false_keyword_is_not_passed k fresh ty kw w v :
  (truthy v = false →
   create k fresh ty (<["positionless" := v]> kw) w
     = create k fresh ty (delete "positionless" kw) w ∧
   create k fresh ty (<["binding" := v]> kw) w
     = create k fresh ty (delete "binding" kw) w) ∧
  (v = PNone ∨ v = PDict ∅ →
   create k fresh ty (<["handlers" := v]> kw) w
     = create k fresh ty (delete "handlers" kw) w).
Proof.
  destruct (_create_component_false_keyword fresh ty kw w) as (Hp & Hb & Hh).
  split.
  - intros Hv. split; apply create_ext; auto.
  - intros Hv. apply create_ext; auto.
Qed.

Lemma false_keyword_is_not_passed_witness :
  create Leaf "g1" "text" (<["positionless" := PBool false]> ∅) section_world
    = (inr created_leaf, attached section_world created_leaf).
Proof.
  destruct (false_keyword_is_not_passed Leaf "g1" "text" ∅ section_world
              (PBool false)) as [Hfalse _].
  destruct (Hfalse eq_refl) as [-> _]. rewrite delete_empty.
  vm_compute. reflexivity.
Defined.

(** ** The root of the facade *)

(** X13. The facade is bound to the tree it is given, when it is given one
    that is true, and to the base tree otherwise. Its [root] is what a
    lookup of ["root"] in that tree returned on construction, and fails
    with a [RuntimeError] exactly when there was none; so it agrees with
    [find] at that moment. *)
Theorem root_at_construction tree_is_true component_tree base ctx :
  let self := (UI.__init__ tree_is_true component_tree base).1 in
  let bound := (UI.__init__ tree_is_true component_tree base).2 in
  (component_tree = None → bound = base) ∧
  (∀ tree, component_tree = Some tree →
           bound = if tree_is_true tree then tree else base) ∧
  (∀ c, UI.root self = inr c ↔
        find "root" (mkWorld bound ctx) = (inr c, mkWorld bound ctx)) ∧
  (UI.root self = inl (RuntimeError "Failed to acquire root component") ↔
   get_component bound "root" = None).
Proof.
  intros self bound. split; [by intros ->|]. split; [by intros tree ->|].
  subst self bound.
  unfold UI.__init__, UI.root, find, bind, get_tree, ret, raise. simpl.
  set (bound := match component_tree with
                | Some tree => if tree_is_true tree then tree else base
                | None => base
                end).
  destruct (get_component bound "root") as [c0|]; split.
  - intros c. split; intros [= ->]; done.
  - split; intros; done.
  - intros c. split; intros; done.
  - done.
Qed.

(** X14. The root is not looked up again: once a creation call has put a
    component under ["root"], [find] returns that component, and [root]
    still returns the one of the construction, which is another one when
    it had no parent. *)
Theorem root_is_not_refreshed tree_is_true component_tree base ctx
    k fresh ty kw c0 c w' :
  let self := (UI.__init__ tree_is_true component_tree base).1 in
  let bound := (UI.__init__ tree_is_true component_tree base).2 in
  get_component bound "root" = Some c0 →
  create k fresh ty kw (mkWorld bound ctx) = (inr c, w') →
  id c = "root" →
  find "root" w' = (inr c, w') ∧ UI.root self = inr c0 ∧
  (parentId c0 = None → c ≠ c0).
Proof.
  intros self bound Hroot Hc Hid.
  pose proof Hc as (-> & _ & Hpid & _)%create_inr_inv.
  split; [|split].
  - apply find_get_component. simpl. rewrite get_component_attach.
    by case_decide.
  - subst self bound. unfold UI.root, UI.__init__ in *. simpl in *.
    by rewrite Hroot.
  - intros Hnone ->. congruence.
Qed.

Lemma root_is_not_refreshed_witness :
  find "root" (attached base_world created_root)
    = (inr created_root, attached base_world created_root) ∧
  UI.root (UI.__init__ (λ _, true) None
             (BaseTree {[ "root" := root_component ]})).1
    = inr root_component.
Proof.
  assert (create Container "g1" "page" root_kwargs base_world
          = (inr created_root, attached base_world created_root)) as H
    by (vm_compute; reflexivity).
  assert (get_component
            (UI.__init__ (λ _, true) None
               (BaseTree {[ "root" := root_component ]})).2 "root"
          = Some root_component) as Hroot by (vm_compute; reflexivity).
  destruct (root_is_not_refreshed (λ _, true) None
              (BaseTree {[ "root" := root_component ]}) None
              _ _ _ _ root_component _ _ Hroot H eq_refl) as (Hf & Hr & _).
  by split.
Defined.
